(** * Shallow embedding of lib/termbox2_nif/c_src/termbox2_nif.c

    The NIF bridge between the BEAM and termbox2.  Each C handler becomes a
    function of the argument vector [argv] (with [argc = length argv]) in a
    small state monad over a [world] that records the bytes written to
    standard output and every call made to the terminal engine or to the
    platform.  The answers of the engine and of the platform (write errors,
    window handles, ...) and the contents of uninitialised memory come from
    an [oracle]. *)

From Stdlib Require Import ZArith List String Ascii Bool Lia.
Import ListNotations.
Open Scope Z_scope.

(** ** Boundary values *)

(** Erlang terms as the handlers see them ([ERL_NIF_TERM]).  Lists are
    proper lists; a Latin-1 string is a list of small integers. *)
#[local] Set Warnings "-register-all".
Inductive term : Type :=
| TInt (z : Z)
| TAtom (a : string)
| TBin (bs : list Byte.byte)
| TList (l : list term)
| TTuple (l : list term).

(** What a handler hands back to the BEAM: a term, or the result of
    [enif_make_badarg], which makes the BEAM raise [badarg]; reading
    [argv] past [argc] is undefined behaviour. *)
Inductive nif_result : Type :=
| NRet (t : term)
| NBadarg
| NUndef.

(** [enif_make_string(env, s, ERL_NIF_LATIN1)]: a list of character codes. *)
Definition enif_make_string (s : string) : term :=
  TList (map (fun c => TInt (Z.of_nat (nat_of_ascii c))) (list_ascii_of_string s)).

Definition enif_make_atom (a : string) : term := TAtom a.

Definition enif_make_tuple2 (a b : term) : term := TTuple [a; b].

(** ** Native integer widths (32-bit [int] and [unsigned int]) *)

Definition INT_MIN : Z := - 2 ^ 31.
Definition INT_MAX : Z := 2 ^ 31 - 1.
Definition UINT_MAX : Z := 2 ^ 32 - 1.

(** [enif_get_int]: succeeds exactly on integers that fit in an [int]. *)
Definition enif_get_int (t : term) : option Z :=
  match t with
  | TInt z => if (INT_MIN <=? z) && (z <=? INT_MAX) then Some z else None
  | _ => None
  end.

(** [enif_get_uint]: succeeds exactly on integers that fit in an
    [unsigned int]. *)
Definition enif_get_uint (t : term) : option Z :=
  match t with
  | TInt z => if (0 <=? z) && (z <=? UINT_MAX) then Some z else None
  | _ => None
  end.

Definition enif_is_binary (t : term) : bool :=
  match t with TBin _ => true | _ => false end.

Definition enif_inspect_binary (t : term) : option (list Byte.byte) :=
  match t with TBin bs => Some bs | _ => None end.

(** ** C memory: byte arrays *)

(** A fresh array of [n] bytes ([char a[n]] on the stack, or [malloc(n)])
    holds whatever was in that memory before: [garbage], padded. *)
Definition fresh_buf (garbage : list Byte.byte) (n : nat) : list Byte.byte :=
  firstn n (garbage ++ repeat Byte.x00 n).

(** [a[i] = v] (in range). *)
Definition store (a : list Byte.byte) (i : nat) (v : Byte.byte) : list Byte.byte :=
  firstn i a ++ [v] ++ skipn (S i) a.

(** [memcpy(a, src, length src)]. *)
Definition memcpy (a src : list Byte.byte) : list Byte.byte :=
  src ++ skipn (List.length src) a.

(** The C string stored in an array: the bytes before the first NUL. *)
Fixpoint c_string (a : list Byte.byte) : list Byte.byte :=
  match a with
  | [] => []
  | b :: a' => if Byte.eqb b Byte.x00 then [] else b :: c_string a'
  end.

(** [enif_get_string(env, list, buf, len, ERL_NIF_LATIN1)] as erts
    implements it: copy the characters one by one; return the number of
    bytes written including the NUL, [-len] when the buffer is full
    (the string is then truncated to [len - 1] characters), or [0] when the
    term is not a Latin-1 string. *)
Definition term_byte (t : term) : option Byte.byte :=
  match t with
  | TInt z => if 0 <=? z then Byte.of_N (Z.to_N z) else None
  | _ => None
  end.

Fixpoint get_string_loop (l : list term) (buf : list Byte.byte) (n len : nat)
  : list Byte.byte * Z :=
  match l with
  | [] => (store buf n Byte.x00, Z.of_nat n + 1)
  | t :: l' =>
      match term_byte t with
      | None => (store buf n Byte.x00, 0)
      | Some b =>
          let buf := store buf n b in
          if (len <=? S n)%nat
          then (store buf n Byte.x00, - Z.of_nat len)
          else get_string_loop l' buf (S n) len
      end
  end.

Definition enif_get_string (t : term) (buf : list Byte.byte) (len : nat)
  : list Byte.byte * Z :=
  if (len <? 1)%nat then (buf, 0) else
  match t with
  | TList l => get_string_loop l buf 0 len
  | _ => (store buf 0 Byte.x00, 0)
  end.

(** ** printf *)

Definition ascii_bytes (s : string) : list Byte.byte :=
  map byte_of_ascii (list_ascii_of_string s).

Definition digit (d : Z) : Byte.byte :=
  nth (Z.to_nat d) [Byte.x30; Byte.x31; Byte.x32; Byte.x33; Byte.x34;
                    Byte.x35; Byte.x36; Byte.x37; Byte.x38; Byte.x39] Byte.x30.

(** Decimal digits of a non-negative number, most significant first. *)
Fixpoint utoa (fuel : nat) (n : Z) : list Byte.byte :=
  match fuel with
  | O => []
  | S f => if n <? 10 then [digit n] else utoa f (n / 10) ++ [digit (n mod 10)]
  end.

(** The conversion [%d] of an [int]. *)
Definition printf_d (n : Z) : list Byte.byte :=
  if n <? 0 then Byte.x2d :: utoa 11 (- n) else utoa 11 n.

(** ** The world and the oracle *)

Inductive engine_call : Type :=
| EInit | EShutdown | EWidth | EHeight | EClear | EPresent
| ESetCursor (x y : Z)
| EHideCursor
| ESetCell (x y ch fg bg : Z)
| ESetInputMode (mode : Z)
| ESetOutputMode (mode : Z)
| EPrint (x y fg bg : Z) (str : list Byte.byte).

Inductive call : Type :=
| CEngine (c : engine_call)
| CSetConsoleTitle (title : list Byte.byte)
| CGetConsoleWindow
| CGetWindowRect (hwnd : Z)
| CMoveWindow (hwnd x y w h : Z)
| CWrite (bytes : list Byte.byte)
| CFlush.

Record world : Type := mkWorld {
  w_out : list Byte.byte;   (** bytes written to standard output *)
  w_calls : list call       (** engine and platform calls, in order *)
}.

Record oracle : Type := mkOracle {
  o_engine : engine_call -> Z;          (** return value of an engine call *)
  o_write_ok : bool;                    (** [printf] succeeds *)
  o_SetConsoleTitle : bool;
  o_GetConsoleWindow : option Z;        (** [NULL] is [None] *)
  o_GetWindowRect : option (Z * Z * Z * Z);  (** left, top, right, bottom *)
  o_MoveWindow : bool;
  o_stack : list Byte.byte;             (** prior contents of stack memory *)
  o_heap : list Byte.byte               (** prior contents of [malloc]ed memory *)
}.

(** The two build targets of the decoration handlers ([#ifdef _WIN32]). *)
Inductive platform : Type := Win32 | Unix.

(** ** A state monad over the world *)

Definition M (A : Type) : Type := world -> A * world.

Definition ret {A : Type} (a : A) : M A := fun w => (a, w).

Definition bind {A B : Type} (m : M A) (k : A -> M B) : M B :=
  fun w => let (a, w') := m w in k a w'.

Notation "x <- c1 ;; c2" := (bind c1 (fun x => c2))
  (at level 61, c1 at next level, right associativity).
Notation "e1 ;; e2" := (bind e1 (fun _ => e2))
  (at level 61, right associativity).

Definition log (c : call) : M unit :=
  fun w => (tt, mkWorld (w_out w) (w_calls w ++ [c])).

(** *** Primitive effects *)

Section Effects.

Variable o : oracle.

(** A call into termbox2. *)
Definition engine (c : engine_call) : M Z :=
  log (CEngine c) ;; ret (o_engine o c).

(** [printf] of the already formatted [bytes]: the number of bytes written,
    or a negative value on a write error. *)
Definition printf (bytes : list Byte.byte) : M Z :=
  fun w =>
    if o_write_ok o
    then (Z.of_nat (List.length bytes),
          mkWorld (w_out w ++ bytes) (w_calls w ++ [CWrite bytes]))
    else (-1, mkWorld (w_out w) (w_calls w ++ [CWrite bytes])).

Definition fflush_stdout : M unit := log CFlush.

Definition SetConsoleTitle (title : list Byte.byte) : M bool :=
  log (CSetConsoleTitle (c_string title)) ;; ret (o_SetConsoleTitle o).

Definition GetConsoleWindow : M (option Z) :=
  log CGetConsoleWindow ;; ret (o_GetConsoleWindow o).

Definition GetWindowRect (hwnd : Z) : M (option (Z * Z * Z * Z)) :=
  log (CGetWindowRect hwnd) ;; ret (o_GetWindowRect o).

Definition MoveWindow (hwnd x y width height : Z) : M bool :=
  log (CMoveWindow hwnd x y width height) ;; ret (o_MoveWindow o).

End Effects.

(** *** Reading [argv] *)

Definition with_arg (argv : list term) (i : nat) (k : term -> M nif_result)
  : M nif_result :=
  match nth_error argv i with
  | Some t => k t
  | None => ret NUndef
  end.

(** [if (!enif_get_int(env, argv[i], &v)) return enif_make_badarg(env);] *)
Definition arg_int (argv : list term) (i : nat) (k : Z -> M nif_result)
  : M nif_result :=
  with_arg argv i (fun t =>
    match enif_get_int t with Some v => k v | None => ret NBadarg end).

Definition arg_uint (argv : list term) (i : nat) (k : Z -> M nif_result)
  : M nif_result :=
  with_arg argv i (fun t =>
    match enif_get_uint t with Some v => k v | None => ret NBadarg end).

Definition arg_binary (argv : list term) (i : nat)
  (k : list Byte.byte -> M nif_result) : M nif_result :=
  with_arg argv i (fun t =>
    match enif_inspect_binary t with Some v => k v | None => ret NBadarg end).

(** ** The handlers *)

Section Handlers.

Variable o : oracle.

Definition nif_tb_init (argv : list term) : M nif_result :=
  result <- engine o EInit ;; ret (NRet (TInt result)).

Definition nif_tb_shutdown (argv : list term) : M nif_result :=
  engine o EShutdown ;; ret (NRet (enif_make_atom "ok")).

Definition nif_tb_width (argv : list term) : M nif_result :=
  result <- engine o EWidth ;; ret (NRet (TInt result)).

Definition nif_tb_height (argv : list term) : M nif_result :=
  result <- engine o EHeight ;; ret (NRet (TInt result)).

Definition nif_tb_clear (argv : list term) : M nif_result :=
  engine o EClear ;; ret (NRet (enif_make_atom "ok")).

Definition nif_tb_present (argv : list term) : M nif_result :=
  engine o EPresent ;; ret (NRet (enif_make_atom "ok")).

Definition nif_tb_set_cursor (argv : list term) : M nif_result :=
  arg_int argv 0 (fun x =>
  arg_int argv 1 (fun y =>
    engine o (ESetCursor x y) ;;
    ret (NRet (enif_make_atom "ok")))).

Definition nif_tb_hide_cursor (argv : list term) : M nif_result :=
  result <- engine o EHideCursor ;; ret (NRet (TInt result)).

Definition nif_tb_set_cell (argv : list term) : M nif_result :=
  arg_int argv 0 (fun x =>
  arg_int argv 1 (fun y =>
  arg_uint argv 2 (fun ch =>
  arg_uint argv 3 (fun fg =>
  arg_uint argv 4 (fun bg =>
    result <- engine o (ESetCell x y ch fg bg) ;;
    ret (NRet (TInt result))))))).

Definition nif_tb_set_input_mode (argv : list term) : M nif_result :=
  arg_int argv 0 (fun mode =>
    result <- engine o (ESetInputMode mode) ;;
    ret (NRet (TInt result))).

Definition nif_tb_set_output_mode (argv : list term) : M nif_result :=
  arg_int argv 0 (fun mode =>
    result <- engine o (ESetOutputMode mode) ;;
    ret (NRet (TInt result))).

(** The null-terminated copy made by [nif_tb_print]:
    [str = malloc(bin.size + 1); memcpy(str, bin.data, bin.size);
     str[bin.size] = '\0';] *)
Definition print_buffer (heap bin : list Byte.byte) : list Byte.byte :=
  let str := fresh_buf heap (List.length bin + 1) in
  let str := memcpy str bin in
  store str (List.length bin) Byte.x00.

Definition nif_tb_print (argv : list term) : M nif_result :=
  arg_int argv 0 (fun x =>
  arg_int argv 1 (fun y =>
  arg_uint argv 2 (fun fg =>
  arg_uint argv 3 (fun bg =>
  arg_binary argv 4 (fun bin =>
    let str := print_buffer (o_heap o) bin in
    result <- engine o (EPrint x y fg bg str) ;;
    ret (NRet (TInt result))))))).

End Handlers.

(** ** Window decoration: [tb_set_title] and [tb_set_position] *)

Definition badarg_tuple : term :=
  enif_make_tuple2 (enif_make_atom "error") (enif_make_atom "badarg").

Definition ok_set : term :=
  enif_make_tuple2 (enif_make_atom "ok") (enif_make_string "set").

Definition error_string (s : string) : term :=
  enif_make_tuple2 (enif_make_atom "error") (enif_make_string s).

(** [memcpy(title, bin.data, bin.size); title[bin.size] = '\0';] *)
Definition title_from_binary (title bin : list Byte.byte) : list Byte.byte :=
  store (memcpy title bin) (List.length bin) Byte.x00.

(** The argument checks and the copy into [char title[256]]: the filled
    buffer, or [None] where the handler returns [{error, badarg}]. *)
Definition title_of_arg (stack : list Byte.byte) (a0 : term)
  : option (list Byte.byte) :=
  let title := fresh_buf stack 256 in
  if enif_is_binary a0 then
    match enif_inspect_binary a0 with
    | None => None
    | Some bin =>
        if (256 <=? List.length bin)%nat then None
        else Some (title_from_binary title bin)
    end
  else
    let (title', r) := enif_get_string a0 title 256 in
    if negb (r =? 0) then Some title' else None.

(** [printf("\033]0;%s\007", title)] *)
Definition osc0_bytes (title : list Byte.byte) : list Byte.byte :=
  [Byte.x1b; Byte.x5d; Byte.x30; Byte.x3b] ++ c_string title ++ [Byte.x07].

(** [printf("\033[3;%d;%dt", y, x)] *)
Definition position_bytes (x y : Z) : list Byte.byte :=
  [Byte.x1b; Byte.x5b; Byte.x33; Byte.x3b] ++ printf_d y ++ [Byte.x3b]
  ++ printf_d x ++ [Byte.x74].

Section Decoration.

Variable target : platform.
Variable o : oracle.

Definition set_title_platform (title : list Byte.byte) : M nif_result :=
  match target with
  | Win32 =>
      ok <- SetConsoleTitle o title ;;
      if ok then ret (NRet ok_set)
      else ret (NRet (error_string "SetConsoleTitle failed"))
  | Unix =>
      r <- printf o (osc0_bytes title) ;;
      if r <? 0 then ret (NRet (error_string "Failed to set title"))
      else (fflush_stdout ;; ret (NRet ok_set))
  end.

Definition tb_set_title (argv : list term) : M nif_result :=
  if negb (List.length argv =? 1)%nat then ret (NRet badarg_tuple) else
  with_arg argv 0 (fun a0 =>
    match title_of_arg (o_stack o) a0 with
    | None => ret (NRet badarg_tuple)
    | Some title => set_title_platform title
    end).

(** [width] and [height] are [int] differences of the rectangle's
    coordinates (kept in [Z]: the rectangle comes from the oracle). *)
Definition set_position_platform (x y : Z) : M nif_result :=
  match target with
  | Win32 =>
      hwnd <- GetConsoleWindow o ;;
      match hwnd with
      | None => ret (NRet (error_string "GetConsoleWindow failed"))
      | Some h =>
          rect <- GetWindowRect o h ;;
          match rect with
          | None => ret (NRet (error_string "GetWindowRect failed"))
          | Some (rleft, rtop, rright, rbottom) =>
              let width := rright - rleft in
              let height := rbottom - rtop in
              ok <- MoveWindow o h x y width height ;;
              if ok then ret (NRet ok_set)
              else ret (NRet (error_string "MoveWindow failed"))
          end
      end
  | Unix =>
      r <- printf o (position_bytes x y) ;;
      if r <? 0 then ret (NRet (error_string "Failed to set position"))
      else (fflush_stdout ;; ret (NRet ok_set))
  end.

Definition tb_set_position (argv : list term) : M nif_result :=
  if negb (List.length argv =? 2)%nat then ret (NRet badarg_tuple) else
  with_arg argv 0 (fun a0 =>
  with_arg argv 1 (fun a1 =>
    match enif_get_int a0, enif_get_int a1 with
    | Some x, Some y =>
        if (x <? 0) || (y <? 0) || (32767 <? x) || (32767 <? y)
        then ret (NRet badarg_tuple)
        else set_position_platform x y
    | _, _ => ret (NRet badarg_tuple)
    end)).

End Decoration.

(** ** The function table [nif_funcs] *)

Inductive op : Type :=
| Op_init | Op_shutdown | Op_width | Op_height | Op_clear | Op_present
| Op_set_cursor | Op_hide_cursor | Op_set_cell | Op_set_input_mode
| Op_set_output_mode | Op_print | Op_set_title | Op_set_position.

Definition nif_funcs : list (string * nat * op) :=
  [("tb_init"%string, 0%nat, Op_init);
   ("tb_shutdown"%string, 0%nat, Op_shutdown);
   ("tb_width"%string, 0%nat, Op_width);
   ("tb_height"%string, 0%nat, Op_height);
   ("tb_clear"%string, 0%nat, Op_clear);
   ("tb_present"%string, 0%nat, Op_present);
   ("tb_set_cursor"%string, 2%nat, Op_set_cursor);
   ("tb_hide_cursor"%string, 0%nat, Op_hide_cursor);
   ("tb_set_cell"%string, 5%nat, Op_set_cell);
   ("tb_set_input_mode"%string, 1%nat, Op_set_input_mode);
   ("tb_set_output_mode"%string, 1%nat, Op_set_output_mode);
   ("tb_print"%string, 5%nat, Op_print);
   ("tb_set_title"%string, 1%nat, Op_set_title);
   ("tb_set_position"%string, 2%nat, Op_set_position)].

Definition handler (target : platform) (o : oracle) (f : op)
  : list term -> M nif_result :=
  match f with
  | Op_init => nif_tb_init o
  | Op_shutdown => nif_tb_shutdown o
  | Op_width => nif_tb_width o
  | Op_height => nif_tb_height o
  | Op_clear => nif_tb_clear o
  | Op_present => nif_tb_present o
  | Op_set_cursor => nif_tb_set_cursor o
  | Op_hide_cursor => nif_tb_hide_cursor o
  | Op_set_cell => nif_tb_set_cell o
  | Op_set_input_mode => nif_tb_set_input_mode o
  | Op_set_output_mode => nif_tb_set_output_mode o
  | Op_print => nif_tb_print o
  | Op_set_title => tb_set_title target o
  | Op_set_position => tb_set_position target o
  end.

(** The arity under which [nif_funcs] registers an operation. *)
Definition arity (f : op) : nat :=
  match f with
  | Op_set_cursor | Op_set_position => 2
  | Op_set_cell | Op_print => 5
  | Op_set_input_mode | Op_set_output_mode | Op_set_title => 1
  | _ => 0
  end.

(** ** Vocabulary of the specification *)

(** A Latin-1 string (a list of character codes) holding the bytes [p]. *)
Definition latin1_term (p : list Byte.byte) : term :=
  TList (map (fun b => TInt (Z.of_N (Byte.to_N b))) p).

(** Integer arguments representable in the native widths. *)
Definition int_arg (t : term) : Prop :=
  exists z, t = TInt z /\ INT_MIN <= z <= INT_MAX.

Definition uint_arg (t : term) : Prop :=
  exists z, t = TInt z /\ 0 <= z <= UINT_MAX.

(** A coordinate of a decoration operation. *)
Definition coord_arg (t : term) : Prop :=
  exists z, t = TInt z /\ 0 <= z <= 32767.

(** A title payload of fewer than 256 bytes, as a binary or a Latin-1
    string. *)
Definition title_arg (t : term) : Prop :=
  exists p, (t = TBin p \/ t = latin1_term p) /\ (List.length p < 256)%nat.

Definition binary_arg (t : term) : Prop := exists p, t = TBin p.

(** The argument tuples the specification calls valid (4.1, 4.2). *)
Definition args_valid (f : op) (argv : list term) : Prop :=
  match f, argv with
  | Op_set_cursor, [a0; a1] => int_arg a0 /\ int_arg a1
  | Op_set_cell, [a0; a1; a2; a3; a4] =>
      int_arg a0 /\ int_arg a1 /\ uint_arg a2 /\ uint_arg a3 /\ uint_arg a4
  | Op_set_input_mode, [a0] | Op_set_output_mode, [a0] => int_arg a0
  | Op_print, [a0; a1; a2; a3; a4] =>
      int_arg a0 /\ int_arg a1 /\ uint_arg a2 /\ uint_arg a3 /\ binary_arg a4
  | Op_set_title, [a0] => title_arg a0
  | Op_set_position, [a0; a1] => coord_arg a0 /\ coord_arg a1
  | Op_init, [] | Op_shutdown, [] | Op_width, [] | Op_height, []
  | Op_clear, [] | Op_present, [] | Op_hide_cursor, [] => True
  | _, _ => False
  end.

(** [InvalidArgument] as the host sees it: the [badarg] exception raised by
    [enif_make_badarg], or the [{error, badarg}] tuple of the decoration
    handlers. *)
Definition is_invalid_argument (r : nif_result) : Prop :=
  r = NBadarg \/ r = NRet badarg_tuple.

(** [contains needle hay]: [needle] occurs in [hay]. *)
Fixpoint contains (needle hay : string) : bool :=
  prefix needle hay ||
  match hay with
  | EmptyString => false
  | String _ hay' => contains needle hay'
  end.

Definition byte_val (b : Byte.byte) : Z := Z.of_N (Byte.to_N b).

(** The number written by a string of decimal digits. *)
Definition dec_value (ds : list Byte.byte) : Z :=
  fold_left (fun acc b => acc * 10 + (byte_val b - 48)) ds 0.

Definition is_decimal (ds : list Byte.byte) (n : Z) : Prop :=
  ds <> [] /\ Forall (fun b => 48 <= byte_val b <= 57) ds /\ dec_value ds = n.

(** Concrete environments. *)
Definition sample_oracle : oracle :=
  mkOracle (fun _ => 0) true true (Some 1) (Some (0, 0, 640, 480)) true [] [].

Definition failing_write_oracle : oracle :=
  mkOracle (fun _ => 0) false true (Some 1) (Some (0, 0, 640, 480)) true [] [].

Definition empty_world : world := mkWorld [] [].

(** ** How the runtime binds [nif_funcs]

    The runtime binds each entry of [nif_funcs] to the function of the same
    name and arity: a call [name(argv)] runs the handler registered under
    [name] with [length argv] arguments, and reaches no handler of this
    file when there is none. *)
Fixpoint nif_lookup (tbl : list (string * nat * op)) (name : string) (n : nat)
  : option op :=
  match tbl with
  | [] => None
  | (nm, a, f) :: tbl' =>
      if String.eqb nm name && Nat.eqb a n then Some f
      else nif_lookup tbl' name n
  end.

Definition dispatch (target : platform) (o : oracle) (name : string)
  (argv : list term) : option (M nif_result) :=
  match nif_lookup nif_funcs name (List.length argv) with
  | Some f => Some (handler target o f argv)
  | None => None
  end.

(** [f] reads [argv] with arity [n]: given [n] arguments it never reads
    [argv] out of range, and given fewer it stops before any call, with
    [badarg] or an out-of-range read. *)
Definition reads_arity (target : platform) (o : oracle) (f : op) (n : nat)
  : Prop :=
  (forall argv w, List.length argv = n -> fst (handler target o f argv w) <> NUndef)
  /\ (forall argv w, (List.length argv < n)%nat ->
        snd (handler target o f argv w) = w
        /\ (fst (handler target o f argv w) = NUndef
            \/ is_invalid_argument (fst (handler target o f argv w)))).

(** ** Outcomes of the decoration handlers *)

(** Whether a platform call succeeded, as the oracle answers it. *)
Definition call_ok (o : oracle) (c : call) : bool :=
  match c with
  | CSetConsoleTitle _ => o_SetConsoleTitle o
  | CGetConsoleWindow => match o_GetConsoleWindow o with Some _ => true | None => false end
  | CGetWindowRect _ => match o_GetWindowRect o with Some _ => true | None => false end
  | CMoveWindow _ _ _ _ _ => o_MoveWindow o
  | CWrite _ => o_write_ok o
  | CFlush => true
  | CEngine _ => true
  end.

(** The calls of the native branch (Win32 API) and of the escape-sequence
    branch (standard output). *)
Definition native_call (c : call) : bool :=
  match c with
  | CSetConsoleTitle _ | CGetConsoleWindow | CGetWindowRect _
  | CMoveWindow _ _ _ _ _ => true
  | _ => false
  end.

Definition stdout_call (c : call) : bool :=
  match c with CWrite _ | CFlush => true | _ => false end.

Definition branch_call (target : platform) (c : call) : bool :=
  match target with Win32 => native_call c | Unix => stdout_call c end.

(** The reason string that names a failed Win32 API call. *)
Definition api_reason (c : call) : string :=
  match c with
  | CSetConsoleTitle _ => "SetConsoleTitle failed"
  | CGetConsoleWindow => "GetConsoleWindow failed"
  | CGetWindowRect _ => "GetWindowRect failed"
  | CMoveWindow _ _ _ _ _ => "MoveWindow failed"
  | _ => ""
  end.

(** The reason reported for a failed call [c]: the API's name on the native
    branch, the fixed [escape_reason] of the operation on the escape
    branch. *)
Definition failure_reason (target : platform) (escape_reason : string)
  (c : call) : string :=
  match target with Win32 => api_reason c | Unix => escape_reason end.

(** The checks of [tb_set_title] pass: one argument, accepted and copied
    into [title]. *)
Definition title_valid (o : oracle) (argv : list term) : Prop :=
  exists a0 title, argv = [a0] /\ title_of_arg (o_stack o) a0 = Some title.

(** The three outcome classes of a decoration handler run from [w] with
    result and final world [rw]: when the checks ([valid]) fail,
    [{error, badarg}] with nothing done; when they pass, a non-empty run of
    calls of the target's branch, after which the result is [{ok, "set"}]
    if every call succeeded, and otherwise the run stops at its first failed
    call [c] with [{error, failure_reason target escape_reason c}]. *)
Definition decoration_outcome (o : oracle) (target : platform) (valid : Prop)
  (escape_reason : string) (w : world) (rw : nif_result * world) : Prop :=
  (~ valid /\ rw = (NRet badarg_tuple, w))
  \/ (valid /\ exists cs,
        w_calls (snd rw) = w_calls w ++ cs /\ cs <> []
        /\ forallb (branch_call target) cs = true
        /\ ((forallb (call_ok o) cs = true /\ fst rw = NRet ok_set)
            \/ exists pre c,
                 cs = pre ++ [c] /\ forallb (call_ok o) pre = true
                 /\ call_ok o c = false
                 /\ fst rw = NRet (error_string (failure_reason target escape_reason c)))).


(** * Properties *)

(** ** Memory and conversion lemmas *)

Lemma fresh_buf_length garbage n : List.length (fresh_buf garbage n) = n.
Proof.
  unfold fresh_buf. rewrite firstn_length_le; [reflexivity|].
  rewrite length_app, repeat_length. lia.
Qed.

Lemma store_app_at a b v rest :
  store (a ++ b :: rest) (List.length a) v = a ++ v :: rest.
Proof.
  unfold store. induction a as [|x a IH]; [reflexivity|].
  simpl. simpl in IH. now rewrite IH.
Qed.

Lemma c_string_app_nul p rest : c_string (p ++ Byte.x00 :: rest) = c_string p.
Proof.
  induction p as [|b p IH]; [reflexivity|].
  simpl. destruct (Byte.eqb b Byte.x00); [reflexivity|]. now rewrite IH.
Qed.

Lemma c_string_no_nul p : ~ In Byte.x00 p -> c_string p = p.
Proof.
  induction p as [|b p IH]; intros H; [reflexivity|]. simpl.
  destruct (Byte.eqb b Byte.x00) eqn:E.
  - apply Byte.byte_dec_bl in E. subst. exfalso. apply H. now left.
  - rewrite IH; [reflexivity|]. intros Hin. apply H. now right.
Qed.

Lemma term_byte_latin1 b : term_byte (TInt (Z.of_N (Byte.to_N b))) = Some b.
Proof.
  simpl. assert ((0 <=? Z.of_N (Byte.to_N b)) = true) as -> by (apply Z.leb_le; lia).
  rewrite N2Z.id. apply Byte.of_to_N.
Qed.

(** [enif_get_string] on a string that fits: the characters and a NUL are
    written from position [n] on. *)
Lemma get_string_loop_fits p : forall pre rest len,
  (List.length pre + List.length p < len)%nat ->
  List.length (pre ++ rest) = len ->
  exists rest',
    get_string_loop (map (fun b => TInt (Z.of_N (Byte.to_N b))) p)
      (pre ++ rest) (List.length pre) len
    = (pre ++ p ++ Byte.x00 :: rest', Z.of_nat (List.length pre + List.length p) + 1).
Proof.
  induction p as [|b p IH]; intros pre rest len Hlt Hlen.
  - destruct rest as [|r rest].
    { rewrite app_nil_r in Hlen. simpl in Hlt. lia. }
    exists rest. simpl. rewrite store_app_at, Nat.add_0_r. reflexivity.
  - destruct rest as [|r rest].
    { rewrite app_nil_r in Hlen. simpl in Hlt. lia. }
    simpl map. cbn [get_string_loop]. rewrite term_byte_latin1, store_app_at.
    simpl in Hlt.
    assert ((len <=? S (List.length pre))%nat = false) as -> by (apply Nat.leb_gt; lia).
    destruct (IH (pre ++ [b]) rest len) as [rest' Hr].
    + rewrite length_app. simpl. lia.
    + rewrite <- app_assoc. simpl. rewrite length_app in *. simpl in *. lia.
    + exists rest'. rewrite length_app in Hr. simpl in Hr.
      rewrite <- app_assoc in Hr. simpl in Hr.
      replace (S (List.length pre)) with (List.length pre + 1)%nat by lia.
      rewrite Hr. rewrite <- app_assoc. simpl. f_equal. lia.
Qed.

(** A payload that fits is copied into [title] followed by a NUL, whichever
    representation carries it. *)
Lemma title_of_arg_fits stack p a0 :
  (List.length p < 256)%nat -> a0 = TBin p \/ a0 = latin1_term p ->
  exists rest, title_of_arg stack a0 = Some (p ++ Byte.x00 :: rest).
Proof.
  intros Hlt [-> | ->]; unfold title_of_arg, latin1_term;
    cbn [enif_is_binary enif_inspect_binary].
  - assert ((256 <=? List.length p)%nat = false) as -> by (apply Nat.leb_gt; lia).
    pose proof (fresh_buf_length stack 256) as Hl.
    destruct (skipn (List.length p) (fresh_buf stack 256)) as [|b rest] eqn:Hs.
    + exfalso. apply (f_equal (@List.length _)) in Hs.
      rewrite length_skipn in Hs. simpl in Hs. lia.
    + exists rest. unfold title_from_binary, memcpy. rewrite Hs.
      now rewrite store_app_at.
  - unfold enif_get_string. cbn [Nat.ltb Nat.leb].
    destruct (get_string_loop_fits p [] (fresh_buf stack 256) 256) as [rest Hr].
    + simpl. lia.
    + apply fresh_buf_length.
    + simpl in Hr. rewrite Hr. exists rest.
      assert ((Z.of_nat (List.length p) + 1 =? 0) = false) as -> by (apply Z.eqb_neq; lia).
      reflexivity.
Qed.

(** A binary of 256 bytes or more is refused. *)
Lemma title_of_arg_long_binary stack p :
  (256 <= List.length p)%nat -> title_of_arg stack (TBin p) = None.
Proof.
  intros H. unfold title_of_arg. cbn [enif_is_binary enif_inspect_binary].
  now assert ((256 <=? List.length p)%nat = true) as -> by (apply Nat.leb_le; lia).
Qed.

Lemma get_int_TInt z :
  INT_MIN <= z <= INT_MAX -> enif_get_int (TInt z) = Some z.
Proof.
  intros H. simpl.
  now assert (((INT_MIN <=? z) && (z <=? INT_MAX)) = true) as ->
    by (apply andb_true_iff; split; apply Z.leb_le; lia).
Qed.

Lemma get_uint_TInt z :
  0 <= z <= UINT_MAX -> enif_get_uint (TInt z) = Some z.
Proof.
  intros H. simpl.
  now assert (((0 <=? z) && (z <=? UINT_MAX)) = true) as ->
    by (apply andb_true_iff; split; apply Z.leb_le; lia).
Qed.

Lemma get_int_spec t z :
  enif_get_int t = Some z <-> t = TInt z /\ INT_MIN <= z <= INT_MAX.
Proof.
  split.
  - destruct t as [v| | | |]; simpl; try discriminate.
    destruct ((INT_MIN <=? v) && (v <=? INT_MAX)) eqn:E; [|discriminate].
    intros [= <-]. apply andb_true_iff in E. rewrite !Z.leb_le in E. auto.
  - intros [-> H]. now apply get_int_TInt.
Qed.

Lemma get_uint_spec t z :
  enif_get_uint t = Some z <-> t = TInt z /\ 0 <= z <= UINT_MAX.
Proof.
  split.
  - destruct t as [v| | | |]; simpl; try discriminate.
    destruct ((0 <=? v) && (v <=? UINT_MAX)) eqn:E; [|discriminate].
    intros [= <-]. apply andb_true_iff in E. rewrite !Z.leb_le in E. auto.
  - intros [-> H]. now apply get_uint_TInt.
Qed.

Lemma int_arg_get t : int_arg t <-> exists z, enif_get_int t = Some z.
Proof.
  split; intros [z H]; exists z; apply get_int_spec; exact H.
Qed.

Lemma uint_arg_get t : uint_arg t <-> exists z, enif_get_uint t = Some z.
Proof.
  split; intros [z H]; exists z; apply get_uint_spec; exact H.
Qed.

Lemma not_int_arg_get t : ~ int_arg t <-> enif_get_int t = None.
Proof.
  rewrite int_arg_get. destruct (enif_get_int t); split; intros H.
  - exfalso. apply H. eauto.
  - discriminate.
  - reflexivity.
  - intros [z Hz]. discriminate.
Qed.

Lemma not_uint_arg_get t : ~ uint_arg t <-> enif_get_uint t = None.
Proof.
  rewrite uint_arg_get. destruct (enif_get_uint t); split; intros H.
  - exfalso. apply H. eauto.
  - discriminate.
  - reflexivity.
  - intros [z Hz]. discriminate.
Qed.

Lemma enif_make_string_inj s1 s2 :
  enif_make_string s1 = enif_make_string s2 -> s1 = s2.
Proof.
  unfold enif_make_string. intros H. injection H as H.
  revert s2 H. induction s1 as [|c s1 IH]; intros [|c' s2] H;
    simpl in H; try discriminate; [reflexivity|].
  injection H as Hc Hs. apply Nat2Z.inj in Hc.
  rewrite <- (ascii_nat_embedding c), <- (ascii_nat_embedding c'), Hc.
  f_equal. now apply IH.
Qed.

Lemma error_string_inj s1 s2 : error_string s1 = error_string s2 -> s1 = s2.
Proof.
  intros H. apply enif_make_string_inj.
  unfold error_string, enif_make_tuple2 in H. congruence.
Qed.

(** ** Decimal formatting *)

Lemma digit_val d : 0 <= d < 10 -> byte_val (digit d) = 48 + d.
Proof.
  intros H.
  assert (d = 0 \/ d = 1 \/ d = 2 \/ d = 3 \/ d = 4 \/ d = 5 \/ d = 6 \/
          d = 7 \/ d = 8 \/ d = 9) as Hd by lia.
  destruct Hd as [->|[->|[->|[->|[->|[->|[->|[->|[->| ->]]]]]]]]]; reflexivity.
Qed.

Lemma dec_value_snoc l b :
  dec_value (l ++ [b]) = dec_value l * 10 + (byte_val b - 48).
Proof. unfold dec_value. now rewrite fold_left_app. Qed.

Lemma utoa_decimal f : forall n,
  0 <= n < 10 ^ Z.of_nat f -> (0 < f)%nat -> is_decimal (utoa f n) n.
Proof.
  induction f as [|f IH]; intros n Hn Hf; [lia|].
  cbn [utoa]. destruct (n <? 10) eqn:E.
  - apply Z.ltb_lt in E. split; [discriminate|]. split.
    + constructor; [rewrite digit_val; lia | constructor].
    + unfold dec_value. simpl. rewrite digit_val; lia.
  - apply Z.ltb_ge in E.
    rewrite Nat2Z.inj_succ, Z.pow_succ_r in Hn by lia.
    assert (Hq : 0 <= n / 10 < 10 ^ Z.of_nat f).
    { split; [apply Z.div_pos; lia | apply Z.div_lt_upper_bound; lia]. }
    assert (Hf' : (0 < f)%nat).
    { destruct f; [|lia]. simpl in Hq.
      assert (1 <= n / 10) by (apply Z.div_le_lower_bound; lia). lia. }
    destruct (IH (n / 10) Hq Hf') as [_ [Hall Hv]].
    pose proof (Z.mod_pos_bound n 10) as Hm.
    split; [|split].
    + intros Hnil. apply app_eq_nil in Hnil. destruct Hnil as [_ Hnil].
      discriminate.
    + apply Forall_app. split; [exact Hall|].
      constructor; [rewrite digit_val; lia | constructor].
    + rewrite dec_value_snoc, Hv, digit_val by lia.
      pose proof (Z.div_mod n 10). lia.
Qed.

Lemma printf_d_decimal n : 0 <= n <= 32767 -> is_decimal (printf_d n) n.
Proof.
  intros H. unfold printf_d.
  assert ((n <? 0) = false) as -> by (apply Z.ltb_ge; lia).
  apply utoa_decimal; [cbn; lia | lia].
Qed.

(** ** The escape-sequence step: [printf], then [fflush(stdout)] *)

Lemma printf_flush_step o bytes (ok err : nif_result) w :
  (r <- printf o bytes ;;
   if r <? 0 then ret err else (fflush_stdout ;; ret ok)) w =
  if o_write_ok o
  then (ok, mkWorld (w_out w ++ bytes) (w_calls w ++ [CWrite bytes; CFlush]))
  else (err, mkWorld (w_out w) (w_calls w ++ [CWrite bytes])).
Proof.
  unfold bind, printf. destruct (o_write_ok o).
  - rewrite (proj2 (Z.ltb_ge _ _) (Nat2Z.is_nonneg _)).
    cbn. now rewrite <- app_assoc.
  - reflexivity.
Qed.

Lemma position_range_false x y :
  0 <= x <= 32767 -> 0 <= y <= 32767 ->
  ((x <? 0) || (y <? 0) || (32767 <? x) || (32767 <? y)) = false.
Proof. intros Hx Hy. rewrite !orb_false_iff, !Z.ltb_ge. lia. Qed.

(** ** Claims *)

(** C2: [set_position] with a coordinate outside [0, 32767] returns
    [{error, badarg}] and makes no call at all (the world is unchanged). *)
Theorem set_position_out_of_range_badarg : forall target o x y w,
  (x < 0 \/ y < 0 \/ 32767 < x \/ 32767 < y) ->
  tb_set_position target o [TInt x; TInt y] w = (NRet badarg_tuple, w).
Proof.
  intros target o x y w H. unfold tb_set_position, with_arg.
  cbn [List.length Nat.eqb negb nth_error].
  destruct (enif_get_int (TInt x)) as [x'|] eqn:Ex; [|reflexivity].
  destruct (enif_get_int (TInt y)) as [y'|] eqn:Ey; [|reflexivity].
  apply get_int_spec in Ex, Ey.
  destruct Ex as [[= <-] _], Ey as [[= <-] _].
  assert (((x <? 0) || (y <? 0) || (32767 <? x) || (32767 <? y)) = true) as ->;
    [|reflexivity].
  rewrite !orb_true_iff, !Z.ltb_lt. lia.
Qed.

Lemma set_position_out_of_range_badarg_witness :
  (32768 < 0 \/ 0 < 0 \/ 32767 < 32768 \/ 32767 < 0) /\
  tb_set_position Unix sample_oracle [TInt 32768; TInt 0] empty_world
  = (NRet badarg_tuple, empty_world).
Proof.
  split; [lia|]. apply set_position_out_of_range_badarg. lia.
Defined.

(** C5 (as the code has it): on the escape-sequence branch an in-range
    [(x, y)] makes [set_position] write [ESC [ 3 ; <y> ; <x> t], with [y]
    and [x] in decimal, and flush: the result is [{ok, "set"}] when the
    write succeeds, and [{error, "Failed to set position"}] (no flush) when
    it fails. *)
Theorem set_position_escape_sequence : forall o x y w,
  0 <= x <= 32767 -> 0 <= y <= 32767 ->
  tb_set_position Unix o [TInt x; TInt y] w =
    (if o_write_ok o
     then (NRet ok_set,
           mkWorld (w_out w ++ position_bytes x y)
                   (w_calls w ++ [CWrite (position_bytes x y); CFlush]))
     else (NRet (error_string "Failed to set position"),
           mkWorld (w_out w) (w_calls w ++ [CWrite (position_bytes x y)])))
  /\ exists dy dx,
       position_bytes x y =
         [Byte.x1b; Byte.x5b; Byte.x33; Byte.x3b] ++ dy ++ [Byte.x3b] ++ dx
         ++ [Byte.x74]
       /\ is_decimal dy y /\ is_decimal dx x.
Proof.
  intros o x y w Hx Hy. split.
  - unfold tb_set_position, with_arg.
    cbn [List.length Nat.eqb negb nth_error].
    rewrite !get_int_TInt by (unfold INT_MIN, INT_MAX; lia).
    rewrite position_range_false by lia.
    apply printf_flush_step.
  - exists (printf_d y), (printf_d x). split; [reflexivity|].
    split; apply printf_d_decimal; lia.
Qed.

Lemma set_position_escape_sequence_witness :
  (0 <= 120 <= 32767 /\ 0 <= 3405 <= 32767) /\
  tb_set_position Unix sample_oracle [TInt 120; TInt 3405] empty_world
  = (NRet ok_set,
     mkWorld (position_bytes 120 3405)
             [CWrite (position_bytes 120 3405); CFlush]).
Proof.
  split; [lia|].
  exact (proj1 (set_position_escape_sequence sample_oracle 120 3405 empty_world
                  ltac:(lia) ltac:(lia))).
Defined.

(** C5 fails as stated: a write error on the escape-sequence branch is
    reported as ["Failed to set position"], a reason that does not name the
    [write] call. *)
Lemma set_position_write_error_reason :
  ~ exists s,
      fst (tb_set_position Unix failing_write_oracle [TInt 10; TInt 20]
             empty_world) = NRet (error_string s)
      /\ contains "write" s = true.
Proof.
  intros [s [Hr Hc]].
  assert (Hs : error_string "Failed to set position" = error_string s).
  { assert (H : NRet (error_string "Failed to set position") = NRet (error_string s))
      by (rewrite <- Hr; reflexivity). congruence. }
  apply error_string_inj in Hs.
  subst s. vm_compute in Hc. discriminate.
Qed.

(** C3 (as the code has it): on the escape-sequence branch a payload of at
    most 255 bytes, binary or Latin-1 string, makes [set_title] write
    [ESC ] 0 ; t BEL] and flush, where [t] is the payload up to its first
    zero byte (the whole payload when it has none); the result is
    [{ok, "set"}] when the write succeeds and [{error, "Failed to set title"}]
    when it fails. *)
Theorem set_title_escape_payload : forall o p a0 w,
  (List.length p <= 255)%nat -> a0 = TBin p \/ a0 = latin1_term p ->
  tb_set_title Unix o [a0] w =
    (if o_write_ok o
     then (NRet ok_set,
           mkWorld (w_out w ++ osc0_bytes p)
                   (w_calls w ++ [CWrite (osc0_bytes p); CFlush]))
     else (NRet (error_string "Failed to set title"),
           mkWorld (w_out w) (w_calls w ++ [CWrite (osc0_bytes p)])))
  /\ osc0_bytes p = [Byte.x1b; Byte.x5d; Byte.x30; Byte.x3b] ++ c_string p ++ [Byte.x07]
  /\ (~ In Byte.x00 p -> c_string p = p).
Proof.
  intros o p a0 w Hl Ha. split; [|split; [reflexivity | apply c_string_no_nul]].
  destruct (title_of_arg_fits (o_stack o) p a0) as [rest Hr]; [lia | exact Ha|].
  unfold tb_set_title, with_arg. cbn [List.length Nat.eqb negb nth_error].
  rewrite Hr. unfold set_title_platform.
  replace (osc0_bytes (p ++ Byte.x00 :: rest)) with (osc0_bytes p)
    by (unfold osc0_bytes; now rewrite c_string_app_nul).
  apply printf_flush_step.
Qed.

Lemma set_title_escape_payload_witness :
  ((List.length [Byte.x48; Byte.x69] <= 255)%nat /\
   TBin [Byte.x48; Byte.x69] = TBin [Byte.x48; Byte.x69]) /\
  tb_set_title Unix sample_oracle [TBin [Byte.x48; Byte.x69]] empty_world
  = (NRet ok_set,
     mkWorld (osc0_bytes [Byte.x48; Byte.x69])
             [CWrite (osc0_bytes [Byte.x48; Byte.x69]); CFlush]).
Proof.
  split; [split; [cbn; lia | reflexivity]|].
  exact (proj1 (set_title_escape_payload sample_oracle [Byte.x48; Byte.x69]
                  (TBin [Byte.x48; Byte.x69]) empty_world
                  ltac:(cbn; lia) (or_introl eq_refl))).
Defined.

(** C3 fails as stated: the three-byte binary [<<65, 0, 66>>] is accepted
    with [{ok, "set"}], but only the bytes before its zero byte are
    transmitted in the title sequence. *)
Lemma set_title_escape_embedded_nul :
  fst (tb_set_title Unix sample_oracle [TBin [Byte.x41; Byte.x00; Byte.x42]]
         empty_world) = NRet ok_set
  /\ w_out (snd (tb_set_title Unix sample_oracle
                   [TBin [Byte.x41; Byte.x00; Byte.x42]] empty_world))
     = [Byte.x1b; Byte.x5d; Byte.x30; Byte.x3b; Byte.x41; Byte.x07]
  /\ w_out (snd (tb_set_title Unix sample_oracle
                   [TBin [Byte.x41; Byte.x00; Byte.x42]] empty_world))
     <> [Byte.x1b; Byte.x5d; Byte.x30; Byte.x3b] ++ [Byte.x41; Byte.x00; Byte.x42]
        ++ [Byte.x07].
Proof.
  split; [reflexivity|]. split; [reflexivity|].
  vm_compute. discriminate.
Qed.

(** C1 (defect): a Latin-1 string of 256 characters is not rejected.
    [enif_get_string] truncates it to 255 characters and returns [-256],
    which the [else if] takes for success; the title is then set and
    [{ok, "set"}] returned, on both branches. *)
Theorem set_title_oversized_latin1_accepted :
  tb_set_title Unix sample_oracle [latin1_term (repeat Byte.x61 256)] empty_world
  = (NRet ok_set,
     mkWorld (osc0_bytes (repeat Byte.x61 255))
             [CWrite (osc0_bytes (repeat Byte.x61 255)); CFlush])
  /\ tb_set_title Win32 sample_oracle [latin1_term (repeat Byte.x61 256)]
       empty_world
     = (NRet ok_set, mkWorld [] [CSetConsoleTitle (repeat Byte.x61 255)]).
Proof. split; vm_compute; reflexivity. Qed.

Lemma latin1_256_not_title_arg :
  ~ title_arg (latin1_term (repeat Byte.x61 256)).
Proof.
  intros [p [[H|H] Hl]]; [discriminate|].
  unfold latin1_term in H. injection H as H.
  apply (f_equal (@List.length _)) in H.
  rewrite !length_map in H. simpl in H. lia.
Qed.

(** C4 (defect): the same oversized Latin-1 string is an invalid argument
    tuple for [set_title], yet the handler does not report
    [InvalidArgument] and writes to standard output. *)
Theorem set_title_oversized_latin1_has_effect :
  ~ args_valid Op_set_title [latin1_term (repeat Byte.x61 256)]
  /\ ~ is_invalid_argument
         (fst (handler Unix sample_oracle Op_set_title
                 [latin1_term (repeat Byte.x61 256)] empty_world))
  /\ w_out (snd (handler Unix sample_oracle Op_set_title
                   [latin1_term (repeat Byte.x61 256)] empty_world)) <> [].
Proof.
  split; [exact latin1_256_not_title_arg|]. split.
  - vm_compute. intros [H|H]; discriminate.
  - vm_compute. discriminate.
Qed.

(** C6: marshalling a payload of [n < 256] bytes.  [nif_tb_print]'s heap
    copy is exactly the payload and one zero byte ([n + 1] bytes in all);
    the binary copy into [char title[256]] and the Latin-1 copy by
    [enif_get_string] begin with the payload and one zero byte, and the
    latter reports [n + 1] bytes written.  Reading the first [n] bytes back
    gives the payload. *)
Theorem marshal_roundtrip : forall heap stack p,
  (List.length p < 256)%nat ->
  print_buffer heap p = p ++ [Byte.x00]
  /\ List.length (print_buffer heap p) = S (List.length p)
  /\ firstn (List.length p) (print_buffer heap p) = p
  /\ firstn (List.length p + 1) (title_from_binary (fresh_buf stack 256) p)
     = p ++ [Byte.x00]
  /\ exists rest,
       enif_get_string (latin1_term p) (fresh_buf stack 256) 256
       = (p ++ Byte.x00 :: rest, Z.of_nat (List.length p) + 1).
Proof.
  intros heap stack p Hl.
  assert (Hp : print_buffer heap p = p ++ [Byte.x00]).
  { unfold print_buffer, memcpy.
    pose proof (fresh_buf_length heap (List.length p + 1)) as Hb.
    remember (skipn (List.length p) (fresh_buf heap (List.length p + 1))) as tl eqn:Hs.
    assert (Htl : List.length tl = 1%nat) by (subst tl; rewrite length_skipn, Hb; lia).
    destruct tl as [|b [|b' rest]]; simpl in Htl; try lia.
    now rewrite store_app_at. }
  split; [exact Hp|]. split; [rewrite Hp, length_app; simpl; lia|].
  split; [rewrite Hp, firstn_app, firstn_all, Nat.sub_diag; apply app_nil_r|].
  split.
  - unfold title_from_binary, memcpy.
    pose proof (fresh_buf_length stack 256) as Hb.
    destruct (skipn (List.length p) (fresh_buf stack 256)) as [|b rest] eqn:Hs.
    + apply (f_equal (@List.length _)) in Hs. rewrite length_skipn in Hs.
      simpl in Hs. lia.
    + rewrite store_app_at, firstn_app_2. reflexivity.
  - unfold enif_get_string, latin1_term. cbn [Nat.ltb Nat.leb].
    destruct (get_string_loop_fits p [] (fresh_buf stack 256) 256) as [rest Hr].
    + simpl. lia.
    + apply fresh_buf_length.
    + exists rest. exact Hr.
Qed.

Lemma marshal_roundtrip_witness :
  (List.length [Byte.x41; Byte.x42] < 256)%nat /\
  print_buffer [Byte.x07; Byte.x07; Byte.x07] [Byte.x41; Byte.x42]
  = [Byte.x41; Byte.x42; Byte.x00].
Proof.
  split; [cbn; lia|].
  exact (proj1 (marshal_roundtrip [Byte.x07; Byte.x07; Byte.x07] []
                  [Byte.x41; Byte.x42] ltac:(cbn; lia))).
Defined.

Ltac split_conversions :=
  repeat match goal with
  | |- context [enif_get_int ?t] =>
      let E := fresh "E" in destruct (enif_get_int t) eqn:E
  | |- context [enif_get_uint ?t] =>
      let E := fresh "E" in destruct (enif_get_uint t) eqn:E
  end.

Ltac settle_validation :=
  cbn; split; intros H;
  [ try discriminate; let Hc := fresh in intros Hc; decompose record Hc;
    congruence
  | try reflexivity; exfalso; apply H; repeat split; eexists; reflexivity ].

(** C7: an integer argument passes validation exactly when it converts
    without loss to the [int] (or [unsigned int]) the handler expects, and
    the converted value is the boundary integer itself; a non-integer or
    out-of-width argument makes [set_cursor], [set_cell],
    [set_input_mode], [set_output_mode] and [print] raise [badarg]. *)
Theorem integer_args_validation : forall o w a0 a1 a2 a3 a4 bin,
  (forall t z, enif_get_int t = Some z <-> t = TInt z /\ INT_MIN <= z <= INT_MAX)
  /\ (forall t z, enif_get_uint t = Some z <-> t = TInt z /\ 0 <= z <= UINT_MAX)
  /\ (fst (nif_tb_set_cursor o [a0; a1] w) = NBadarg
      <-> ~ (int_arg a0 /\ int_arg a1))
  /\ (fst (nif_tb_set_cell o [a0; a1; a2; a3; a4] w) = NBadarg
      <-> ~ (int_arg a0 /\ int_arg a1 /\ uint_arg a2 /\ uint_arg a3 /\ uint_arg a4))
  /\ (fst (nif_tb_set_input_mode o [a0] w) = NBadarg <-> ~ int_arg a0)
  /\ (fst (nif_tb_set_output_mode o [a0] w) = NBadarg <-> ~ int_arg a0)
  /\ (fst (nif_tb_print o [a0; a1; a2; a3; TBin bin] w) = NBadarg
      <-> ~ (int_arg a0 /\ int_arg a1 /\ uint_arg a2 /\ uint_arg a3)).
Proof.
  intros o w a0 a1 a2 a3 a4 bin.
  split; [exact get_int_spec|]. split; [exact get_uint_spec|].
  rewrite !int_arg_get, !uint_arg_get.
  unfold nif_tb_set_cursor, nif_tb_set_cell, nif_tb_set_input_mode,
    nif_tb_set_output_mode, nif_tb_print, arg_int, arg_uint, arg_binary,
    with_arg.
  cbn [nth_error enif_inspect_binary].
  split_conversions;
    repeat match goal with |- _ /\ _ => split end; settle_validation.
Qed.

(** C9: [set_cursor] and [set_cell] apply no range check: any coordinates
    that fit in an [int], negative or as large as [INT_MAX], go to the
    engine unchanged, and [set_cursor] answers [ok]. *)
Theorem set_cursor_set_cell_unchecked : forall o w x y,
  INT_MIN <= x <= INT_MAX -> INT_MIN <= y <= INT_MAX ->
  nif_tb_set_cursor o [TInt x; TInt y] w
  = (NRet (enif_make_atom "ok"),
     mkWorld (w_out w) (w_calls w ++ [CEngine (ESetCursor x y)]))
  /\ forall ch fg bg,
       0 <= ch <= UINT_MAX -> 0 <= fg <= UINT_MAX -> 0 <= bg <= UINT_MAX ->
       nif_tb_set_cell o [TInt x; TInt y; TInt ch; TInt fg; TInt bg] w
       = (NRet (TInt (o_engine o (ESetCell x y ch fg bg))),
          mkWorld (w_out w) (w_calls w ++ [CEngine (ESetCell x y ch fg bg)])).
Proof.
  intros o w x y Hx Hy. split.
  - unfold nif_tb_set_cursor, arg_int, with_arg. cbn [nth_error].
    rewrite !get_int_TInt by assumption. reflexivity.
  - intros ch fg bg Hch Hfg Hbg.
    unfold nif_tb_set_cell, arg_int, arg_uint, with_arg. cbn [nth_error].
    rewrite !get_int_TInt, !get_uint_TInt by assumption. reflexivity.
Qed.

Lemma set_cursor_set_cell_unchecked_witness :
  (INT_MIN <= -7 <= INT_MAX /\ INT_MIN <= 2147483647 <= INT_MAX) /\
  nif_tb_set_cursor sample_oracle [TInt (-7); TInt 2147483647] empty_world
  = (NRet (enif_make_atom "ok"),
     mkWorld [] [CEngine (ESetCursor (-7) 2147483647)])
  /\ nif_tb_set_cell sample_oracle
       [TInt (-7); TInt 2147483647; TInt 65; TInt 16777215; TInt 0] empty_world
     = (NRet (TInt 0),
        mkWorld [] [CEngine (ESetCell (-7) 2147483647 65 16777215 0)]).
Proof.
  assert (Hx : INT_MIN <= -7 <= INT_MAX) by (unfold INT_MIN, INT_MAX; lia).
  assert (Hy : INT_MIN <= 2147483647 <= INT_MAX) by (unfold INT_MIN, INT_MAX; lia).
  split; [split; assumption|].
  destruct (set_cursor_set_cell_unchecked sample_oracle empty_world (-7) 2147483647
              Hx Hy) as [Hc Hs].
  split; [exact Hc|].
  apply Hs; unfold UINT_MAX; lia.
Defined.

(** ** Arity and dispatch *)

Lemma nif_lookup_in tbl name n f :
  nif_lookup tbl name n = Some f -> In (name, n, f) tbl.
Proof.
  induction tbl as [|[[nm a] g] tbl IH]; cbn; [discriminate|].
  destruct (String.eqb_spec nm name), (Nat.eqb_spec a n); cbn;
    try (intros H; right; exact (IH H)).
  intros [= <-]. subst. now left.
Qed.

Lemma nif_lookup_none tbl name n :
  nif_lookup tbl name n = None <-> forall f, ~ In (name, n, f) tbl.
Proof.
  split.
  - induction tbl as [|[[nm a] g] tbl IH]; cbn; [tauto|].
    destruct (String.eqb_spec nm name), (Nat.eqb_spec a n); cbn;
      [discriminate| | |]; intros H f [Hf | Hf];
      try (injection Hf; intros; subst; contradiction);
      exact (IH H f Hf).
  - intros H. destruct (nif_lookup tbl name n) as [f|] eqn:E; [|reflexivity].
    exfalso. exact (H f (nif_lookup_in _ _ _ _ E)).
Qed.

Lemma set_title_platform_NRet target o title w :
  exists r, fst (set_title_platform target o title w) = NRet r.
Proof.
  unfold set_title_platform. destruct target.
  - unfold bind, SetConsoleTitle, log, ret. cbn.
    destruct (o_SetConsoleTitle o); eexists; reflexivity.
  - rewrite printf_flush_step. destruct (o_write_ok o); eexists; reflexivity.
Qed.

Lemma set_position_platform_NRet target o x y w :
  exists r, fst (set_position_platform target o x y w) = NRet r.
Proof.
  unfold set_position_platform. destruct target.
  - unfold bind, GetConsoleWindow, GetWindowRect, MoveWindow, log, ret. cbn.
    destruct (o_GetConsoleWindow o); [|eexists; reflexivity].
    destruct (o_GetWindowRect o) as [[[[? ?] ?] ?]|]; [|eexists; reflexivity].
    destruct (o_MoveWindow o); eexists; reflexivity.
  - rewrite printf_flush_step. destruct (o_write_ok o); eexists; reflexivity.
Qed.

Ltac unfold_handler :=
  unfold handler, nif_tb_init, nif_tb_shutdown, nif_tb_width, nif_tb_height,
    nif_tb_clear, nif_tb_present, nif_tb_set_cursor, nif_tb_hide_cursor,
    nif_tb_set_cell, nif_tb_set_input_mode, nif_tb_set_output_mode,
    nif_tb_print, tb_set_title, tb_set_position, arg_int, arg_uint,
    arg_binary, with_arg, engine, bind, log, ret;
  cbn [List.length Nat.eqb negb nth_error].

Ltac case_checks :=
  repeat match goal with
  | |- context [enif_get_int ?t] => destruct (enif_get_int t)
  | |- context [enif_get_uint ?t] => destruct (enif_get_uint t)
  | |- context [enif_inspect_binary ?t] => destruct (enif_inspect_binary t)
  | |- context [title_of_arg ?s ?t] => destruct (title_of_arg s t)
  | |- context [if ?b then _ else _] =>
      lazymatch b with context [set_position_platform] => fail | _ => destruct b end
  end.

Ltac settle_arity :=
  split;
  [ intros argv w Hlen;
    destruct argv as [|a0 [|a1 [|a2 [|a3 [|a4 [|a5 argv]]]]]];
    cbn in Hlen; try discriminate Hlen; unfold_handler; case_checks; cbn;
    first
      [ discriminate
      | match goal with
        | |- fst (set_title_platform ?t ?o ?ti ?w) <> _ =>
            destruct (set_title_platform_NRet t o ti w) as [? ->]; discriminate
        | |- fst (set_position_platform ?t ?o ?x ?y ?w) <> _ =>
            destruct (set_position_platform_NRet t o x y w) as [? ->]; discriminate
        end ]
  | intros argv w Hlen;
    destruct argv as [|a0 [|a1 [|a2 [|a3 [|a4 argv]]]]];
    cbn in Hlen; try lia; unfold_handler; case_checks; cbn;
    (split; [reflexivity | unfold is_invalid_argument; tauto]) ].

Lemma coord_args_check a0 a1 :
  coord_arg a0 /\ coord_arg a1 <->
  exists x y, enif_get_int a0 = Some x /\ enif_get_int a1 = Some y
    /\ ((x <? 0) || (y <? 0) || (32767 <? x) || (32767 <? y)) = false.
Proof.
  split.
  - intros [[x [-> Hx]] [y [-> Hy]]]. exists x, y.
    rewrite !get_int_TInt by (unfold INT_MIN, INT_MAX; lia).
    split; [reflexivity | split; [reflexivity | now apply position_range_false]].
  - intros [x [y [E0 [E1 R]]]].
    apply get_int_spec in E0, E1. destruct E0 as [-> _], E1 as [-> _].
    rewrite !orb_false_iff, !Z.ltb_ge in R.
    split; [exists x | exists y]; split; auto; lia.
Qed.




Ltac rewrite_oracle :=
  repeat match goal with
  | H : ?f ?o = _ |- context [?f ?o] => rewrite H
  end.

(** A run of calls [cs] appended to the log, all of the target's branch,
    that either all succeeded or stopped at the first failure. *)
Ltac settle_run :=
  cbn; rewrite <- ?app_assoc; cbn;
  eexists; split; [reflexivity|];
  split; [discriminate|];
  split; [reflexivity|];
  first
    [ left; split; cbn; rewrite_oracle; reflexivity
    | right;
      match goal with
      | |- exists pre c, ?cs = pre ++ [c] /\ _ =>
          let l := eval cbn in (removelast cs) in
          let x := eval cbn in (last cs CFlush) in
          exists l, x
      end;
      split; [reflexivity|];
      split; [cbn; rewrite_oracle; reflexivity|];
      split; cbn; rewrite_oracle; reflexivity ].




(** * Further properties of the handlers *)

(** ** [enif_get_string] on longer or ill-formed lists *)

(** A non-character met before the buffer is full makes the copy fail. *)
Lemma get_string_loop_reject p t rest : forall pre buf len,
  term_byte t = None ->
  (List.length pre + List.length p < len)%nat ->
  List.length (pre ++ buf) = len ->
  snd (get_string_loop (map (fun b => TInt (Z.of_N (Byte.to_N b))) p ++ t :: rest)
         (pre ++ buf) (List.length pre) len) = 0.
Proof.
  induction p as [|b p IH]; intros pre buf len Ht Hlt Hlen.
  - simpl. now rewrite Ht.
  - destruct buf as [|r buf].
    { rewrite app_nil_r in Hlen. simpl in Hlt. lia. }
    cbn [map app get_string_loop]. rewrite term_byte_latin1, store_app_at.
    simpl in Hlt.
    assert ((len <=? S (List.length pre))%nat = false) as -> by (apply Nat.leb_gt; lia).
    replace (pre ++ b :: buf) with ((pre ++ [b]) ++ buf) by (now rewrite <- app_assoc).
    replace (S (List.length pre)) with (List.length (pre ++ [b]))
      by (rewrite length_app; simpl; lia).
    apply IH; [exact Ht | rewrite length_app; simpl; lia |].
    rewrite <- app_assoc. simpl. rewrite length_app in *. simpl in *. lia.
Qed.

(** A string reaching the end of the buffer is cut one byte before it, and
    the copy reports [-len]. *)
Lemma get_string_loop_truncate q b rest : forall pre buf len,
  (List.length pre + List.length q + 1 = len)%nat ->
  List.length (pre ++ buf) = len ->
  exists buf',
    get_string_loop (map (fun b => TInt (Z.of_N (Byte.to_N b))) (q ++ [b]) ++ rest)
      (pre ++ buf) (List.length pre) len
    = (pre ++ q ++ Byte.x00 :: buf', - Z.of_nat len).
Proof.
  induction q as [|c q IH]; intros pre buf len Heq Hlen.
  - destruct buf as [|r buf].
    { rewrite app_nil_r in Hlen. simpl in Heq. lia. }
    cbn [map app get_string_loop]. rewrite term_byte_latin1, store_app_at.
    simpl in Heq.
    assert ((len <=? S (List.length pre))%nat = true) as -> by (apply Nat.leb_le; lia).
    rewrite store_app_at. exists buf. reflexivity.
  - destruct buf as [|r buf].
    { rewrite app_nil_r in Hlen. simpl in Heq. lia. }
    cbn [map app get_string_loop]. rewrite term_byte_latin1, store_app_at.
    simpl in Heq.
    assert ((len <=? S (List.length pre))%nat = false) as -> by (apply Nat.leb_gt; lia).
    replace (pre ++ c :: buf) with ((pre ++ [c]) ++ buf) by (now rewrite <- app_assoc).
    replace (S (List.length pre)) with (List.length (pre ++ [c]))
      by (rewrite length_app; simpl; lia).
    destruct (IH (pre ++ [c]) buf len) as [buf' Hr].
    + rewrite length_app. simpl. lia.
    + rewrite <- app_assoc. simpl. rewrite length_app in *. simpl in *. lia.
    + exists buf'. rewrite Hr, <- app_assoc. reflexivity.
Qed.

(** The platform step only reads the C string in [title]. *)
Lemma set_title_platform_c_string target o q rest :
  set_title_platform target o (q ++ Byte.x00 :: rest)
  = set_title_platform target o (q ++ [Byte.x00]).
Proof.
  unfold set_title_platform, SetConsoleTitle, osc0_bytes.
  now rewrite !c_string_app_nul.
Qed.

Lemma print_buffer_spec heap p : print_buffer heap p = p ++ [Byte.x00].
Proof.
  unfold print_buffer, memcpy.
  pose proof (fresh_buf_length heap (List.length p + 1)) as Hb.
  remember (skipn (List.length p) (fresh_buf heap (List.length p + 1))) as tl eqn:Hs.
  assert (Htl : List.length tl = 1%nat) by (subst tl; rewrite length_skipn, Hb; lia).
  destruct tl as [|b [|b' rest]]; simpl in Htl; try lia.
  now rewrite store_app_at.
Qed.

(** ** [tb_set_title] *)

(** [set_title] refuses, with [{error, badarg}] and no call, an integer,
    atom or tuple, a binary of 256 bytes or more, and a list holding a
    non-character within its first 256 elements. *)
Theorem set_title_rejects_bad_payload : forall target o w,
  (forall a0, match a0 with TInt _ | TAtom _ | TTuple _ => True | _ => False end ->
     tb_set_title target o [a0] w = (NRet badarg_tuple, w))
  /\ (forall p, (256 <= List.length p)%nat ->
        tb_set_title target o [TBin p] w = (NRet badarg_tuple, w))
  /\ (forall p t rest, term_byte t = None -> (List.length p < 256)%nat ->
        tb_set_title target o
          [TList (map (fun b => TInt (Z.of_N (Byte.to_N b))) p ++ t :: rest)] w
        = (NRet badarg_tuple, w)).
Proof.
  intros target o w. split; [|split].
  - intros [z|a|bs|l|l] H; try contradiction; reflexivity.
  - intros p Hp. unfold tb_set_title, with_arg.
    cbn [List.length Nat.eqb negb nth_error].
    now rewrite title_of_arg_long_binary.
  - intros p t rest Ht Hp. unfold tb_set_title, with_arg.
    cbn [List.length Nat.eqb negb nth_error].
    unfold title_of_arg. cbn [enif_is_binary]. unfold enif_get_string.
    cbn [Nat.ltb Nat.leb].
    pose proof (get_string_loop_reject p t rest [] (fresh_buf (o_stack o) 256) 256
                  Ht ltac:(simpl; lia) (fresh_buf_length _ _)) as Hr.
    simpl in Hr. simpl List.length.
    destruct (get_string_loop _ (fresh_buf (o_stack o) 256) 0 256) as [title r].
    simpl in Hr. subst r. reflexivity.
Qed.

Lemma set_title_rejects_bad_payload_witness :
  tb_set_title Unix sample_oracle [TAtom "title"] empty_world
  = (NRet badarg_tuple, empty_world)
  /\ tb_set_title Win32 sample_oracle [TBin (repeat Byte.x20 300)] empty_world
     = (NRet badarg_tuple, empty_world)
  /\ tb_set_title Unix sample_oracle
       [TList (map (fun b => TInt (Z.of_N (Byte.to_N b))) [Byte.x48; Byte.x69]
               ++ TInt 300 :: [])] empty_world
     = (NRet badarg_tuple, empty_world).
Proof.
  destruct (set_title_rejects_bad_payload Unix sample_oracle empty_world)
    as [H1 [_ H3]].
  destruct (set_title_rejects_bad_payload Win32 sample_oracle empty_world)
    as [_ [H2 _]].
  split; [apply H1; exact I|]. split.
  - apply H2. rewrite repeat_length. lia.
  - apply H3; [reflexivity | cbn; lia].
Defined.

(** A Latin-1 string of 256 characters or more sets the same title as its
    first 255 characters: the rest of the list is never looked at. *)
Theorem set_title_latin1_truncated : forall target o q b rest w,
  List.length q = 255%nat ->
  tb_set_title target o
    [TList (map (fun b => TInt (Z.of_N (Byte.to_N b))) (q ++ [b]) ++ rest)] w
  = set_title_platform target o (q ++ [Byte.x00]) w
  /\ tb_set_title target o [latin1_term q] w
     = set_title_platform target o (q ++ [Byte.x00]) w.
Proof.
  intros target o q b rest w Hq. split.
  - unfold tb_set_title, with_arg. cbn [List.length Nat.eqb negb nth_error].
    unfold title_of_arg. cbn [enif_is_binary]. unfold enif_get_string.
    cbn [Nat.ltb Nat.leb].
    destruct (get_string_loop_truncate q b rest [] (fresh_buf (o_stack o) 256) 256)
      as [buf' Hr]; [simpl; lia | apply fresh_buf_length |].
    simpl List.length in Hr. rewrite app_nil_l in Hr. rewrite Hr. cbn.
    now rewrite set_title_platform_c_string.
  - destruct (title_of_arg_fits (o_stack o) q (latin1_term q)) as [r Hr];
      [lia | now right |].
    unfold tb_set_title, with_arg. cbn [List.length Nat.eqb negb nth_error].
    rewrite Hr. now rewrite set_title_platform_c_string.
Qed.

Lemma set_title_latin1_truncated_witness :
  List.length (repeat Byte.x61 255) = 255%nat /\
  tb_set_title Unix sample_oracle
    [TList (map (fun b => TInt (Z.of_N (Byte.to_N b))) (repeat Byte.x61 255 ++ [Byte.x62])
            ++ [TAtom "ignored"])] empty_world
  = tb_set_title Unix sample_oracle [latin1_term (repeat Byte.x61 255)] empty_world.
Proof.
  split; [apply repeat_length|].
  destruct (set_title_latin1_truncated Unix sample_oracle (repeat Byte.x61 255)
              Byte.x62 [TAtom "ignored"] empty_world (repeat_length _ _)) as [H1 H2].
  rewrite H1, H2. reflexivity.
Defined.

(** On the native branch an accepted payload of at most 255 bytes makes
    exactly one call, [SetConsoleTitle] with the payload up to its first zero
    byte; nothing is written to standard output, and the result follows the
    call's success. *)
Theorem set_title_win32 : forall o p a0 w,
  (List.length p <= 255)%nat -> a0 = TBin p \/ a0 = latin1_term p ->
  tb_set_title Win32 o [a0] w
  = (if o_SetConsoleTitle o then NRet ok_set
     else NRet (error_string "SetConsoleTitle failed"),
     mkWorld (w_out w) (w_calls w ++ [CSetConsoleTitle (c_string p)])).
Proof.
  intros o p a0 w Hl Ha.
  destruct (title_of_arg_fits (o_stack o) p a0) as [rest Hr]; [lia | exact Ha |].
  unfold tb_set_title, with_arg. cbn [List.length Nat.eqb negb nth_error].
  rewrite Hr. unfold set_title_platform, SetConsoleTitle, bind, log, ret.
  rewrite c_string_app_nul. cbn. now destruct (o_SetConsoleTitle o).
Qed.

Lemma set_title_win32_witness :
  ((List.length [Byte.x48; Byte.x00; Byte.x69] <= 255)%nat /\
   TBin [Byte.x48; Byte.x00; Byte.x69] = TBin [Byte.x48; Byte.x00; Byte.x69]) /\
  tb_set_title Win32 sample_oracle [TBin [Byte.x48; Byte.x00; Byte.x69]] empty_world
  = (NRet ok_set, mkWorld [] [CSetConsoleTitle [Byte.x48]]).
Proof.
  split; [split; [cbn; lia | reflexivity]|].
  exact (set_title_win32 sample_oracle [Byte.x48; Byte.x00; Byte.x69]
           (TBin [Byte.x48; Byte.x00; Byte.x69]) empty_world
           ltac:(cbn; lia) (or_introl eq_refl)).
Defined.

(** ** [tb_set_position] *)

(** On the native branch an in-range position first asks for the console
    window, then for its rectangle, then moves the window to [(x, y)] with
    the rectangle's width and height; each failure stops the sequence with
    its own reason, and nothing is written to standard output. *)
Theorem set_position_win32 : forall o x y w,
  0 <= x <= 32767 -> 0 <= y <= 32767 ->
  tb_set_position Win32 o [TInt x; TInt y] w =
  match o_GetConsoleWindow o with
  | None => (NRet (error_string "GetConsoleWindow failed"),
             mkWorld (w_out w) (w_calls w ++ [CGetConsoleWindow]))
  | Some h =>
      match o_GetWindowRect o with
      | None => (NRet (error_string "GetWindowRect failed"),
                 mkWorld (w_out w) (w_calls w ++ [CGetConsoleWindow; CGetWindowRect h]))
      | Some (l, t, r, b) =>
          (if o_MoveWindow o then NRet ok_set
           else NRet (error_string "MoveWindow failed"),
           mkWorld (w_out w)
             (w_calls w ++ [CGetConsoleWindow; CGetWindowRect h;
                            CMoveWindow h x y (r - l) (b - t)]))
      end
  end.
Proof.
  intros o x y w Hx Hy. unfold tb_set_position, with_arg.
  cbn [List.length Nat.eqb negb nth_error].
  rewrite !get_int_TInt by (unfold INT_MIN, INT_MAX; lia).
  rewrite position_range_false by lia.
  unfold set_position_platform, bind, GetConsoleWindow, GetWindowRect,
    MoveWindow, log, ret. cbn.
  destruct (o_GetConsoleWindow o) as [h|]; [|reflexivity].
  destruct (o_GetWindowRect o) as [[[[l t] r] b]|]; cbn;
    rewrite <- !app_assoc; [|reflexivity].
  now destruct (o_MoveWindow o).
Qed.

Lemma set_position_win32_witness :
  (0 <= 100 <= 32767 /\ 0 <= 32767 <= 32767) /\
  tb_set_position Win32 sample_oracle [TInt 100; TInt 32767] empty_world
  = (NRet ok_set,
     mkWorld [] [CGetConsoleWindow; CGetWindowRect 1;
                 CMoveWindow 1 100 32767 640 480]).
Proof.
  split; [lia|].
  exact (set_position_win32 sample_oracle 100 32767 empty_world
           ltac:(lia) ltac:(lia)).
Defined.

(** [set_position] reaches the platform exactly on two integer coordinates
    in [0, 32767]: any other argument vector gives [{error, badarg}] with
    the world unchanged, and a valid one always makes at least one platform
    call. *)
Theorem set_position_validation : forall target o argv w,
  (~ args_valid Op_set_position argv ->
   tb_set_position target o argv w = (NRet badarg_tuple, w))
  /\ (args_valid Op_set_position argv ->
      (List.length (w_calls w) < List.length (w_calls (snd (tb_set_position target o argv w))))%nat).
Proof.
  intros target o argv w. split.
  - intros Hv. unfold tb_set_position.
    destruct argv as [|a0 [|a1 [|a2 argv]]]; try reflexivity.
    unfold with_arg. cbn [List.length Nat.eqb negb nth_error].
    destruct (enif_get_int a0) as [x|] eqn:E0; [|reflexivity].
    destruct (enif_get_int a1) as [y|] eqn:E1; [|reflexivity].
    destruct ((x <? 0) || (y <? 0) || (32767 <? x) || (32767 <? y)) eqn:R;
      [reflexivity|].
    exfalso. apply Hv. apply get_int_spec in E0, E1.
    destruct E0 as [-> _], E1 as [-> _].
    rewrite !orb_false_iff, !Z.ltb_ge in R.
    split; [exists x | exists y]; split; auto; lia.
  - intros Hv. destruct argv as [|a0 [|a1 [|a2 argv]]]; try contradiction.
    destruct Hv as [[x [-> Hx]] [y [-> Hy]]].
    unfold tb_set_position, with_arg. cbn [List.length Nat.eqb negb nth_error].
    rewrite !get_int_TInt by (unfold INT_MIN, INT_MAX; lia).
    rewrite position_range_false by lia.
    unfold set_position_platform. destruct target.
    + unfold bind, GetConsoleWindow, GetWindowRect, MoveWindow, log, ret. cbn.
      destruct (o_GetConsoleWindow o); destruct (o_GetWindowRect o) as [[[[? ?] ?] ?]|];
        try destruct (o_MoveWindow o); cbn; rewrite ?length_app; cbn; lia.
    + rewrite printf_flush_step.
      destruct (o_write_ok o); cbn; rewrite length_app; cbn; lia.
Qed.

Lemma set_position_validation_witness :
  tb_set_position Unix sample_oracle [TAtom "x"; TInt 5] empty_world
  = (NRet badarg_tuple, empty_world)
  /\ (List.length (w_calls empty_world)
      < List.length (w_calls (snd (tb_set_position Win32 failing_write_oracle
                                     [TInt 0; TInt 0] empty_world))))%nat.
Proof.
  split.
  - apply (set_position_validation Unix sample_oracle [TAtom "x"; TInt 5]
             empty_world).
    intros [[z [Hz _]] _]. discriminate.
  - apply (set_position_validation Win32 failing_write_oracle [TInt 0; TInt 0]
             empty_world).
    split; eexists; split; [reflexivity | lia | reflexivity | lia].
Defined.

(** ** The engine handlers *)

Definition engine_op (f : op) : bool :=
  match f with Op_set_title | Op_set_position => false | _ => true end.

Ltac settle_engine :=
  first
    [ left; split; reflexivity
    | right; eexists; split;
      [reflexivity | first [left; reflexivity | right; reflexivity]] ].

(** Called with its registered arity, every handler other than the two
    decoration handlers either raises [badarg] with nothing done, or makes
    exactly one engine call and returns the engine's integer result or
    [ok]; none of them writes to standard output. *)
Theorem engine_handlers_one_call : forall target o f argv w,
  engine_op f = true -> List.length argv = arity f ->
  (fst (handler target o f argv w) = NBadarg /\ snd (handler target o f argv w) = w)
  \/ exists c,
       snd (handler target o f argv w)
       = mkWorld (w_out w) (w_calls w ++ [CEngine c])
       /\ (fst (handler target o f argv w) = NRet (TInt (o_engine o c))
           \/ fst (handler target o f argv w) = NRet (TAtom "ok")).
Proof.
  intros target o f argv w Hf Hlen.
  destruct f; try discriminate Hf;
    destruct argv as [|a0 [|a1 [|a2 [|a3 [|a4 [|a5 argv]]]]]];
    cbn in Hlen; try discriminate Hlen;
    unfold handler, nif_tb_init, nif_tb_shutdown, nif_tb_width, nif_tb_height,
      nif_tb_clear, nif_tb_present, nif_tb_set_cursor, nif_tb_hide_cursor,
      nif_tb_set_cell, nif_tb_set_input_mode, nif_tb_set_output_mode,
      nif_tb_print, arg_int, arg_uint, arg_binary, with_arg, engine, bind,
      log, ret;
    cbn [nth_error];
    repeat match goal with
    | |- context [enif_get_int ?t] => destruct (enif_get_int t)
    | |- context [enif_get_uint ?t] => destruct (enif_get_uint t)
    | |- context [enif_inspect_binary ?t] => destruct (enif_inspect_binary t)
    end;
    cbn; settle_engine.
Qed.

Lemma engine_handlers_one_call_witness :
  (engine_op Op_set_cell = true /\
   List.length [TInt 5; TInt 3; TInt 65; TInt 16777215; TInt 0] = arity Op_set_cell) /\
  ((fst (handler Unix sample_oracle Op_set_cell
           [TInt 5; TInt 3; TInt 65; TInt 16777215; TInt 0] empty_world) = NBadarg
    /\ snd (handler Unix sample_oracle Op_set_cell
              [TInt 5; TInt 3; TInt 65; TInt 16777215; TInt 0] empty_world)
       = empty_world)
   \/ exists c,
        snd (handler Unix sample_oracle Op_set_cell
               [TInt 5; TInt 3; TInt 65; TInt 16777215; TInt 0] empty_world)
        = mkWorld [] ([] ++ [CEngine c])
        /\ (fst (handler Unix sample_oracle Op_set_cell
                   [TInt 5; TInt 3; TInt 65; TInt 16777215; TInt 0] empty_world)
            = NRet (TInt (o_engine sample_oracle c))
            \/ fst (handler Unix sample_oracle Op_set_cell
                      [TInt 5; TInt 3; TInt 65; TInt 16777215; TInt 0] empty_world)
               = NRet (TAtom "ok"))).
Proof.
  split; [split; reflexivity|].
  exact (engine_handlers_one_call Unix sample_oracle Op_set_cell
           [TInt 5; TInt 3; TInt 65; TInt 16777215; TInt 0] empty_world
           eq_refl eq_refl).
Defined.

(** [print] hands the engine the payload followed by one zero byte, with
    the converted coordinates and colours, and returns the engine's result. *)
Theorem print_forwards_copy : forall o w x y fg bg p,
  INT_MIN <= x <= INT_MAX -> INT_MIN <= y <= INT_MAX ->
  0 <= fg <= UINT_MAX -> 0 <= bg <= UINT_MAX ->
  nif_tb_print o [TInt x; TInt y; TInt fg; TInt bg; TBin p] w
  = (NRet (TInt (o_engine o (EPrint x y fg bg (p ++ [Byte.x00])))),
     mkWorld (w_out w) (w_calls w ++ [CEngine (EPrint x y fg bg (p ++ [Byte.x00]))])).
Proof.
  intros o w x y fg bg p Hx Hy Hfg Hbg.
  unfold nif_tb_print, arg_int, arg_uint, arg_binary, with_arg.
  cbn [nth_error enif_inspect_binary].
  rewrite !get_int_TInt, !get_uint_TInt by assumption.
  rewrite print_buffer_spec. reflexivity.
Qed.

Lemma print_forwards_copy_witness :
  (INT_MIN <= 0 <= INT_MAX /\ INT_MIN <= 0 <= INT_MAX /\
   0 <= 7 <= UINT_MAX /\ 0 <= 0 <= UINT_MAX) /\
  nif_tb_print sample_oracle [TInt 0; TInt 0; TInt 7; TInt 0; TBin []] empty_world
  = (NRet (TInt 0), mkWorld [] [CEngine (EPrint 0 0 7 0 [Byte.x00])]).
Proof.
  assert (H : INT_MIN <= 0 <= INT_MAX) by (unfold INT_MIN, INT_MAX; lia).
  assert (Hu : 0 <= 7 <= UINT_MAX) by (unfold UINT_MAX; lia).
  assert (Hz : 0 <= 0 <= UINT_MAX) by (unfold UINT_MAX; lia).
  split; [tauto|].
  exact (print_forwards_copy sample_oracle empty_world 0 0 7 0 [] H H Hu Hz).
Defined.
